(** * manga-ocr-server/app.py: the two OCR endpoints

    A shallow embedding of [src/manga-ocr-server/app.py].  The module builds
    one [MangaOcr] engine when it is imported and registers two endpoints,
    [recognize_text] (POST /ocr) and [recognize_batch] (POST /ocr/batch).
    Both read the uploaded bytes, open them with Pillow and call the engine.
    Neither of them contains a [try]/[except]: whatever Pillow or the engine
    raises leaves the handler. *)

From Stdlib Require Import Strings.Byte.
From stdpp Require Import base option list strings gmap.

(** ** Data *)

Definition bytes : Type := list byte.

(** [fastapi.UploadFile], as the handlers receive it: a freshly parsed
    upload positioned at its start, so that [read()] yields the whole body. *)
Record UploadFile := {
  filename : string;
  content_type : string;
  file : bytes
}.

(** A Python call either returns a value or raises. *)
Inductive outcome (E A : Type) :=
| Returns (a : A)
| Raises (e : E).
Arguments Returns {E A} a.
Arguments Raises {E A} e.

(** The third-party code the module calls.  Pillow and manga_ocr are not
    part of the repository; the handlers are verified against any
    implementation of this interface. *)
Class Externals := {
  (** [PIL.Image.Image] *)
  Image : Type;
  (** instances of [manga_ocr.MangaOcr] *)
  Engine : Type;
  (** what the two libraries raise *)
  LibExn : Type;
  (** [Image.open(io.BytesIO(contents))] *)
  Image_open : bytes -> outcome LibExn Image;
  (** [MangaOcr()] *)
  MangaOcr_new : outcome LibExn Engine;
  (** [mocr(img)], the engine's [__call__] *)
  MangaOcr_call : Engine -> Image -> outcome LibExn string
}.

(** Exceptions that can leave a statement of app.py: a global name that is
    not bound yet, or an exception of one of the libraries. *)
Inductive exn `{Externals} :=
| NameError (name : string)
| LibError (e : LibExn).

(** The calls the module makes to the outside, in the order it makes them. *)
Inductive event `{Externals} :=
| EvEngineInit
| EvRead (image : UploadFile)
| EvOpen (contents : bytes)
| EvRecognize (m : Engine) (img : Image).

(** ** Statements as computations

    A computation takes the log of the calls made so far and gives back an
    outcome and the extended log.  After a [Raises] nothing more runs. *)
Definition M `{Externals} (A : Type) : Type :=
  list event -> outcome exn A * list event.

Definition ret `{Externals} {A} (a : A) : M A := fun l => (Returns a, l).

Definition raise `{Externals} {A} (e : exn) : M A := fun l => (Raises e, l).

Definition bind `{Externals} {A B} (c : M A) (k : A -> M B) : M B :=
  fun l =>
    match c l with
    | (Returns a, l') => k a l'
    | (Raises e, l') => (Raises e, l')
    end.

Notation "x <- c ;; k" := (bind c (fun x => k))
  (at level 100, c at next level, right associativity).

(** An external call: log it, then return or re-raise what it gave. *)
Definition extcall `{Externals} {A} (ev : event) (r : outcome LibExn A) : M A :=
  fun l =>
    (match r with Returns a => Returns a | Raises e => Raises (LibError e) end,
     l ++ [ev]).

(** ** Module globals *)

Inductive endpoint := recognize_text_ep | recognize_batch_ep.

(** The two module-level names the code assigns: [app] (its route table is
    all that matters here) and [mocr]. [None] is "not bound yet". *)
Record globals `{Externals} := {
  g_app : option (list (string * endpoint));
  g_mocr : option Engine
}.

(** Reading the global [mocr] inside a handler. *)
Definition load_mocr `{Externals} (g : globals) : M Engine :=
  match g_mocr g with
  | Some m => ret m
  | None => raise (NameError "mocr")
  end.

(** ** The handlers *)

(** [contents = await image.read()] *)
Definition UploadFile_read `{Externals} (image : UploadFile) : M bytes :=
  fun l => (Returns (file image), l ++ [EvRead image]).

(** [img = Image.open(io.BytesIO(contents))] *)
Definition open_image `{Externals} (contents : bytes) : M Image :=
  extcall (EvOpen contents) (Image_open contents).

(** [text = mocr(img)] *)
Definition call_mocr `{Externals} (g : globals) (img : Image) : M string :=
  m <- load_mocr g ;;
  extcall (EvRecognize m img) (MangaOcr_call m img).

(** [async def recognize_text(image)] *)
Definition recognize_text `{Externals} (g : globals) (image : UploadFile)
  : M (gmap string string) :=
  contents <- UploadFile_read image ;;
  img <- open_image contents ;;
  text <- call_mocr g img ;;
  ret {[ "text" := text ]}.

(** The [for image in images] loop of [recognize_batch]; [results] is the
    list built so far, each iteration appends one dict to it. *)
Fixpoint batch_loop `{Externals} (g : globals) (images : list UploadFile)
    (results : list (gmap string string)) : M (list (gmap string string)) :=
  match images with
  | [] => ret results
  | image :: images' =>
      contents <- UploadFile_read image ;;
      img <- open_image contents ;;
      text <- call_mocr g img ;;
      batch_loop g images' (results ++ [ {[ "text" := text ]} ])
  end.

(** [async def recognize_batch(images)] *)
Definition recognize_batch `{Externals} (g : globals) (images : list UploadFile)
  : M (gmap string (list (gmap string string))) :=
  results <- batch_loop g images [] ;;
  ret {[ "results" := results ]}.

(** ** The module body and the process around it *)

(** [@app.post(path)] in front of a handler: read the global [app] and add
    the route to it. *)
Definition app_post `{Externals} (path : string) (ep : endpoint) (g : globals)
  : M globals :=
  match g_app g with
  | Some routes =>
      ret {| g_app := Some (routes ++ [(path, ep)]); g_mocr := g_mocr g |}
  | None => raise (NameError "app")
  end.

(** The top-level statements of app.py, run once, in file order, when the
    process imports the module. *)
Definition import_module `{Externals} : M globals :=
  let g := {| g_app := None; g_mocr := None |} in
  (* app = FastAPI() *)
  let g := {| g_app := Some []; g_mocr := g_mocr g |} in
  (* mocr = MangaOcr() *)
  m <- extcall EvEngineInit MangaOcr_new ;;
  let g := {| g_app := g_app g; g_mocr := Some m |} in
  (* @app.post("/ocr") async def recognize_text *)
  g <- app_post "/ocr" recognize_text_ep g ;;
  (* @app.post("/ocr/batch") async def recognize_batch *)
  g <- app_post "/ocr/batch" recognize_batch_ep g ;;
  ret g.

(** FastAPI and the server that hosts [app] are not part of the repository.
    What they do with the module is kept to the minimum the lifecycle needs:
    the module is imported before anything is served; a request names a path
    and carries uploads; a path with no route is answered 404, an exception
    that leaves a handler is answered 500, and the process goes on with the
    next request.  The framework's own validation can only turn more
    requests away, and interleaving requests can reorder the calls of
    different requests but cannot move one before the import. *)
Inductive request :=
| Post (path : string) (files : list UploadFile).

Inductive response `{Externals} :=
| JsonText (body : gmap string string)
| JsonBatch (body : gmap string (list (gmap string string)))
| NotFound
| Unprocessable
| ServerError (e : exn).

Fixpoint find_route (path : string) (routes : list (string * endpoint))
  : option endpoint :=
  match routes with
  | [] => None
  | (p, ep) :: routes' =>
      if String.eqb path p then Some ep else find_route path routes'
  end.

Definition call_endpoint `{Externals} (g : globals) (ep : endpoint)
    (files : list UploadFile) : M response :=
  match ep with
  | recognize_text_ep =>
      match files with
      | [image] => body <- recognize_text g image ;; ret (JsonText body)
      | _ => ret Unprocessable
      end
  | recognize_batch_ep =>
      body <- recognize_batch g files ;; ret (JsonBatch body)
  end.

Definition handle `{Externals} (g : globals) (req : request) : M response :=
  let '(Post path files) := req in
  match g_app g with
  | None => ret NotFound
  | Some routes =>
      match find_route path routes with
      | None => ret NotFound
      | Some ep =>
          fun l =>
            match call_endpoint g ep files l with
            | (Raises e, l') => (Returns (ServerError e), l')
            | answered => answered
            end
      end
  end.

Fixpoint serve `{Externals} (g : globals) (reqs : list request)
  : M (list response) :=
  match reqs with
  | [] => ret []
  | req :: reqs' =>
      r <- handle g req ;;
      rs <- serve g reqs' ;;
      ret (r :: rs)
  end.

(** One process: import the module, then serve. *)
Definition run_process `{Externals} (reqs : list request) : M (list response) :=
  g <- import_module ;;
  serve g reqs.

(** ** Vocabulary of the statements *)

(** The item decodes and the engine [m] reads [text] from it. *)
Definition item_ok `{Externals} (m : Engine) (image : UploadFile) (text : string)
  : Prop :=
  exists img, Image_open (file image) = Returns img
              /\ MangaOcr_call m img = Returns text.

(** Decoding the item raises [e], or it decodes and recognizing it raises [e]. *)
Definition item_raises `{Externals} (m : Engine) (image : UploadFile) (e : LibExn)
  : Prop :=
  Image_open (file image) = Raises e
  \/ exists img, Image_open (file image) = Returns img
                 /\ MangaOcr_call m img = Raises e.

(** The external calls that processing one item makes: read, open and, when
    the open returned, recognize. *)
Definition item_events `{Externals} (m : Engine) (image : UploadFile)
  : list event :=
  [EvRead image; EvOpen (file image)]
  ++ match Image_open (file image) with
     | Returns img => [EvRecognize m img]
     | Raises _ => []
     end.

(** A result dict that carries an error descriptor. *)
Definition is_error (d : gmap string string) : Prop := is_Some (d !! "error").

(** Running a per-item computation over the inputs in order, collecting the
    results: the "map the single-item processing over the inputs" that the
    batch endpoint is compared with. *)
Fixpoint map_M `{Externals} {A B} (f : A -> M B) (xs : list A) : M (list B) :=
  match xs with
  | [] => ret []
  | x :: xs' =>
      y <- f x ;;
      ys <- map_M f xs' ;;
      ret (y :: ys)
  end.

(** A call that serving a request may make once the engine [m] is bound:
    no second construction of the engine, and recognition on [m] only. *)
Definition request_event `{Externals} (m : Engine) (ev : event) : Prop :=
  match ev with
  | EvEngineInit => False
  | EvRecognize m' _ => m' = m
  | EvRead _ | EvOpen _ => True
  end.

(** [c] behaves as code run after the import does: it only appends
    [request_event]s to the log, never raises a [NameError], and what it
    returns satisfies [Q]. *)
Definition runs_ready `{Externals} {A} (m : Engine) (Q : A -> Prop) (c : M A)
  : Prop :=
  forall l, exists evs,
    (c l).2 = l ++ evs
    /\ Forall (request_event m) evs
    /\ match (c l).1 with
       | Returns a => Q a
       | Raises e => forall name, e <> NameError name
       end.

(** The answer is not a 500 caused by an unbound global. *)
Definition not_name_error `{Externals} (r : response) : Prop :=
  forall name, r <> ServerError (NameError name).

(** ** A small implementation of the libraries

    Enough of a decoder and of an engine to run the handlers on concrete
    uploads: bytes open as an image when they start with the PNG signature,
    anything else is not identified; the engine reads the bytes after the
    signature back as text and rejects an image with none. *)
Inductive toy_exn := UnidentifiedImageError | ValueError.

Record toy_image := { pixels : bytes }.

Definition png_signature : bytes := [x89; x50; x4e; x47; x0d; x0a; x1a; x0a].

Fixpoint starts_with (p b : bytes) : bool :=
  match p, b with
  | [], _ => true
  | x :: p', y :: b' => Byte.eqb x y && starts_with p' b'
  | _ :: _, [] => false
  end.

Definition toy_open (contents : bytes) : outcome toy_exn toy_image :=
  if starts_with png_signature contents
  then Returns {| pixels := drop 8 contents |}
  else Raises UnidentifiedImageError.

Definition toy_call (_ : unit) (img : toy_image) : outcome toy_exn string :=
  match pixels img with
  | [] => Raises ValueError
  | p => Returns (String.string_of_list_byte p)
  end.

Definition toy : Externals := {|
  Image := toy_image;
  Engine := unit;
  LibExn := toy_exn;
  Image_open := toy_open;
  MangaOcr_new := Returns tt;
  MangaOcr_call := toy_call
|}.

Definition upload (name : string) (contents : bytes) : UploadFile :=
  {| filename := name; content_type := "image/png"; file := contents |}.

Definition page_a : UploadFile := upload "a.png" (png_signature ++ [x41]).
Definition page_b : UploadFile := upload "b.png" (png_signature ++ [x42]).
Definition blank_page : UploadFile := upload "blank.png" png_signature.
Definition garbage : UploadFile := upload "junk.png" [x6a; x75; x6e; x6b].
Definition empty_upload : UploadFile := upload "empty.png" [].

(** The globals of a [toy] process once the module is imported. *)
Definition toy_ready : @globals toy :=
  @Build_globals toy
    (Some [("/ocr", recognize_text_ep); ("/ocr/batch", recognize_batch_ep)])
    (Some tt).

(** How many times the engine was called in a log. *)
Fixpoint recognitions `{Externals} (evs : list event) : nat :=
  match evs with
  | [] => 0
  | EvRecognize _ _ :: evs' => S (recognitions evs')
  | _ :: evs' => recognitions evs'
  end.

(** The bytes of [page_a] and of [page_b], uploaded under other names and
    declared as plain text. *)
Definition notes_a : UploadFile :=
  {| filename := "notes.txt"; content_type := "text/plain";
     file := png_signature ++ [x41] |}.
Definition notes_b : UploadFile :=
  {| filename := ""; content_type := "application/octet-stream";
     file := png_signature ++ [x42] |}.

(** * Facts about the handlers *)

Section Handlers.
Context `{Externals}.

(** ** Running one item *)

(** With [mocr] bound, [recognize_text] reads, opens and, when the open
    returned, recognizes; the first exception ends it. *)
Lemma recognize_text_run (g : globals) (m : Engine) (image : UploadFile) l :
  g_mocr g = Some m ->
  recognize_text g image l =
    (match Image_open (file image) with
     | Raises e => Raises (LibError e)
     | Returns img =>
         match MangaOcr_call m img with
         | Raises e => Raises (LibError e)
         | Returns text => Returns {[ "text" := text ]}
         end
     end, l ++ item_events m image).
Proof.
  intros Hm.
  unfold recognize_text, call_mocr, load_mocr, open_image, UploadFile_read,
    item_events, extcall, bind, ret.
  rewrite Hm.
  destruct (Image_open (file image)) as [img|e]; cbn.
  - destruct (MangaOcr_call m img); cbn; rewrite <- !app_assoc; reflexivity.
  - rewrite <- !app_assoc; reflexivity.
Qed.

(** The handler only appends to the log: what it returns does not depend on
    the calls made before. *)
Lemma recognize_text_frame (g : globals) (image : UploadFile) l :
  recognize_text g image l =
    ((recognize_text g image []).1, l ++ (recognize_text g image []).2).
Proof.
  unfold recognize_text, call_mocr, load_mocr, open_image, UploadFile_read,
    extcall, bind, ret, raise.
  destruct (Image_open (file image)) as [img|e]; cbn;
    [destruct (g_mocr g) as [m|]; cbn; [destruct (MangaOcr_call m img)|]|];
    cbn; rewrite <- ?app_assoc; reflexivity.
Qed.

Lemma recognize_text_ok (g : globals) (m : Engine) (image : UploadFile) text l :
  g_mocr g = Some m -> item_ok m image text ->
  recognize_text g image l = (Returns {[ "text" := text ]}, l ++ item_events m image).
Proof.
  intros Hm (img & Hopen & Hcall).
  rewrite (recognize_text_run g m) by exact Hm.
  rewrite Hopen, Hcall. reflexivity.
Qed.

Lemma recognize_text_raises (g : globals) (m : Engine) (image : UploadFile) e l :
  g_mocr g = Some m -> item_raises m image e ->
  recognize_text g image l = (Raises (LibError e), l ++ item_events m image).
Proof.
  intros Hm [Hopen | (img & Hopen & Hcall)];
    rewrite (recognize_text_run g m) by exact Hm.
  - rewrite Hopen. reflexivity.
  - rewrite Hopen, Hcall. reflexivity.
Qed.

(** ** Running the loop *)

(** One iteration of the loop is one run of the single-item body; an
    exception in it ends the loop and [results] is dropped. *)
Lemma batch_loop_step (g : globals) image images results l :
  batch_loop g (image :: images) results l =
    match recognize_text g image l with
    | (Returns d, l') => batch_loop g images (results ++ [d]) l'
    | (Raises e, l') => (Raises e, l')
    end.
Proof.
  cbn [batch_loop].
  unfold recognize_text, call_mocr, load_mocr, open_image, UploadFile_read,
    extcall, bind, ret, raise.
  destruct (Image_open (file image)) as [img|e]; cbn; [|reflexivity].
  destruct (g_mocr g) as [m|]; cbn; [|reflexivity].
  destruct (MangaOcr_call m img); reflexivity.
Qed.

Lemma batch_loop_map_M (g : globals) images results l :
  batch_loop g images results l =
    (rs <- map_M (recognize_text g) images ;; ret (results ++ rs)) l.
Proof.
  revert results l.
  induction images as [|image images IH]; intros results l.
  - cbn. unfold bind, ret. rewrite app_nil_r. reflexivity.
  - rewrite batch_loop_step. cbn [map_M]. unfold bind at 1 2.
    destruct (recognize_text g image l) as [[d|e] l']; [|reflexivity].
    rewrite IH. unfold bind, ret.
    destruct (map_M (recognize_text g) images l') as [[ds|e] l'']; [|reflexivity].
    rewrite <- app_assoc. reflexivity.
Qed.

(** Items that all go through: the loop returns one dict per item, in
    order, after the dicts it started with. *)
Lemma batch_loop_ok (g : globals) (m : Engine) images texts results l :
  g_mocr g = Some m ->
  Forall2 (item_ok m) images texts ->
  batch_loop g images results l =
    (Returns (results ++ ((fun text => {[ "text" := text ]}) <$> texts)),
     l ++ concat (item_events m <$> images)).
Proof.
  intros Hm Hall. revert results l.
  induction Hall as [|image text images texts Hok _ IH]; intros results l.
  - cbn. unfold ret. rewrite !app_nil_r. reflexivity.
  - rewrite batch_loop_step, (recognize_text_ok g m image text) by assumption.
    rewrite IH. cbn. rewrite <- !app_assoc. reflexivity.
Qed.

(** The first item that raises, after [k] items that went through: the loop
    raises that exception, and the log stops at that item. *)
Lemma batch_loop_raises (g : globals) (m : Engine) images k image e texts results l :
  g_mocr g = Some m ->
  images !! k = Some image ->
  item_raises m image e ->
  Forall2 (item_ok m) (take k images) texts ->
  batch_loop g images results l =
    (Raises (LibError e), l ++ concat (item_events m <$> take (S k) images)).
Proof.
  intros Hm Hk Hbad. revert k texts results l Hk.
  induction images as [|x images IH]; intros k texts results l Hk Hall.
  - discriminate.
  - destruct k as [|k]; cbn in Hk.
    + injection Hk as ->. rewrite batch_loop_step.
      rewrite (recognize_text_raises g m image e) by assumption.
      cbn. rewrite app_nil_r. reflexivity.
    + cbn [take] in Hall. inversion Hall as [|? text ? texts' Hok Hall']; subst.
      rewrite batch_loop_step, (recognize_text_ok g m x text) by assumption.
      rewrite (IH k texts') by assumption.
      cbn. rewrite <- !app_assoc. reflexivity.
Qed.

(** An item that raises at position [k] stops the loop at or before [k]:
    the loop raises, and neither the exception nor the calls made depend on
    the results built so far or on what follows position [k]. *)
Lemma batch_loop_stops (g : globals) (m : Engine) images k image e l :
  g_mocr g = Some m ->
  images !! k = Some image ->
  item_raises m image e ->
  exists e' evs, forall images' results,
    take (S k) images' = take (S k) images ->
    batch_loop g images' results l = (Raises e', l ++ evs).
Proof.
  intros Hm Hk Hbad. revert k l Hk.
  induction images as [|x images IH]; intros k l Hk; [discriminate|].
  destruct k as [|k]; cbn in Hk.
  - injection Hk as ->. exists (LibError e), (item_events m image).
    intros [|y images'] results Heq; [discriminate|].
    cbn in Heq. injection Heq as ->.
    rewrite batch_loop_step, (recognize_text_raises g m image e) by assumption.
    reflexivity.
  - destruct (recognize_text g x []) as [[d|e0] evx] eqn:Hx.
    + destruct (IH k (l ++ evx) Hk) as (e' & evs & Hstop).
      exists e', (evx ++ evs).
      intros [|y images'] results Heq; [discriminate|].
      cbn [take] in Heq. injection Heq as -> Heq.
      rewrite batch_loop_step, recognize_text_frame, Hx. cbn.
      rewrite (Hstop images' (results ++ [d]) Heq), app_assoc. reflexivity.
    + exists e0, evx.
      intros [|y images'] results Heq; [discriminate|].
      cbn [take] in Heq. injection Heq as -> Heq.
      rewrite batch_loop_step, recognize_text_frame, Hx. reflexivity.
Qed.

End Handlers.

(** * The endpoints *)

Section Endpoints.
Context `{Externals}.

(** Items that go through one by one give the list of their texts. *)
Lemma items_ok_texts (m : Engine) (images : list UploadFile) :
  Forall (fun image => exists text, item_ok m image text) images ->
  exists texts, Forall2 (item_ok m) images texts.
Proof.
  induction 1 as [|image images [text Hok] _ [texts IH]].
  - exists []. constructor.
  - exists (text :: texts). constructor; assumption.
Qed.

Lemma map_M_recognize_text_ok (g : globals) (images : list UploadFile) l :
  Forall (fun image => exists d, (recognize_text g image []).1 = Returns d) images ->
  exists results l',
    map_M (recognize_text g) images l = (Returns results, l')
    /\ Forall2 (fun image d => (recognize_text g image []).1 = Returns d)
         images results.
Proof.
  intros Hall. revert l.
  induction Hall as [|image images [d Hd] _ IH]; intros l.
  - exists [], l. split; [reflexivity | constructor].
  - destruct (IH (l ++ (recognize_text g image []).2)) as (ds & l' & Hrun & Hds).
    exists (d :: ds), l'. split; [|constructor; assumption].
    cbn [map_M]. unfold bind at 1 2.
    rewrite recognize_text_frame, Hd, Hrun. reflexivity.
Qed.

(** C4. For the empty batch the loop body never runs: [recognize_batch]
    returns [{"results": []}], raises nothing and calls nothing. *)
Theorem recognize_batch_empty (g : globals) l :
  recognize_batch g [] l = (Returns {[ "results" := [] ]}, l).
Proof. reflexivity. Qed.

(** C3, as the code has it. With [mocr] bound, [recognize_text] reads,
    decodes, then recognizes. When both steps return it answers
    [{"text": text}]. An exception of the decoder or of the engine is not
    caught: it leaves the handler as the raised exception, and no dict with
    an ["error"] key is ever returned. *)
Theorem recognize_text_outcome (g : globals) (m : Engine) (image : UploadFile) l :
  g_mocr g = Some m ->
  (forall text, item_ok m image text ->
     (recognize_text g image l).1 = Returns {[ "text" := text ]})
  /\ (forall e, item_raises m image e ->
        (recognize_text g image l).1 = Raises (LibError e))
  /\ (forall d, (recognize_text g image l).1 = Returns d -> ~ is_error d)
  /\ (recognize_text g image l).2 = l ++ item_events m image.
Proof.
  intros Hm. repeat split.
  - intros text Hok. rewrite (recognize_text_ok g m image text) by assumption.
    reflexivity.
  - intros e Hbad. rewrite (recognize_text_raises g m image e) by assumption.
    reflexivity.
  - intros d. rewrite (recognize_text_run g m) by exact Hm. cbn.
    destruct (Image_open (file image)) as [img|]; [|discriminate].
    destruct (MangaOcr_call m img) as [text|]; [|discriminate].
    intros [= <-] [v Hv]. rewrite lookup_singleton_ne in Hv; discriminate.
  - rewrite (recognize_text_run g m) by exact Hm. reflexivity.
Qed.

(** C2, as the code has it. For a batch of N inputs whose items all decode
    and are recognized, [recognize_batch] returns exactly N results, and the
    result at each position is the [{"text": ...}] of the input at the same
    position. *)
Theorem recognize_batch_length_and_order
    (g : globals) (m : Engine) (images : list UploadFile) texts l :
  g_mocr g = Some m ->
  Forall2 (item_ok m) images texts ->
  exists results,
    (recognize_batch g images l).1 = Returns {[ "results" := results ]}
    /\ length results = length images
    /\ forall i image, images !! i = Some image ->
         exists text, item_ok m image text
                      /\ results !! i = Some {[ "text" := text ]}.
Proof.
  intros Hm Hall.
  exists ((fun text => {[ "text" := text ]}) <$> texts).
  unfold recognize_batch, bind.
  rewrite (batch_loop_ok g m images texts) by assumption. cbn.
  split; [reflexivity|]. split.
  - rewrite length_fmap. symmetry. eapply Forall2_length; eassumption.
  - intros i image Hi.
    destruct (Forall2_lookup_l _ _ _ _ _ Hall Hi) as (text & Htext & Hok).
    exists text. split; [assumption|].
    rewrite list_lookup_fmap, Htext. reflexivity.
Qed.

(** C1, as the code has it. In a batch with one item whose decoding fails
    among otherwise valid items, be it that [Image.open] rejects the bytes
    or that they open and the failure comes out of [mocr(img)],
    [recognize_batch] processes the items before the failing one and then
    raises that item's exception: no result list is returned, for none of
    the N inputs, and the last call made is the one that raised, the open
    or, when the bytes opened, the recognition. *)
Theorem recognize_batch_decode_failure
    (g : globals) (m : Engine) (images : list UploadFile) k bad e l :
  g_mocr g = Some m ->
  images !! k = Some bad ->
  item_raises m bad e ->
  (forall i image, i <> k -> images !! i = Some image ->
     exists text, item_ok m image text) ->
  (recognize_batch g images l).1 = Raises (LibError e)
  /\ (recognize_batch g images l).2 =
       l ++ concat (item_events m <$> take k images)
         ++ [EvRead bad; EvOpen (file bad)]
         ++ match Image_open (file bad) with
            | Returns img => [EvRecognize m img]
            | Raises _ => []
            end.
Proof.
  intros Hm Hk Hbad Hrest.
  destruct (items_ok_texts m (take k images)) as [texts Htexts].
  { apply Forall_lookup_2. intros i image Hi.
    apply lookup_take_Some in Hi as [Hi Hlt].
    apply (Hrest i); [lia | assumption]. }
  unfold recognize_batch, bind.
  rewrite (batch_loop_raises g m images k bad e texts) by assumption.
  cbn. split; [reflexivity|].
  rewrite (take_S_r _ _ _ Hk), fmap_app, concat_app. cbn.
  unfold item_events. rewrite app_nil_r. reflexivity.
Qed.

(** C9. When decoding or recognizing the k-th item of a batch raises,
    [recognize_batch] returns no results at all: it raises.  The results
    built for the items before position k are dropped with the loop, and the
    items after position k are never processed: the outcome and the calls
    made are the same whatever follows position k, in particular the same
    as for the batch cut after position k.  When the items before k all went
    through, the exception raised is the k-th item's and the calls made are
    exactly those of the items up to position k. *)
Theorem recognize_batch_all_or_nothing
    (g : globals) (m : Engine) (images : list UploadFile) k image e l :
  g_mocr g = Some m ->
  images !! k = Some image ->
  item_raises m image e ->
  (exists e', (recognize_batch g images l).1 = Raises e')
  /\ (forall images', take (S k) images' = take (S k) images ->
        recognize_batch g images' l = recognize_batch g images l)
  /\ (forall texts, Forall2 (item_ok m) (take k images) texts ->
        recognize_batch g images l =
          (Raises (LibError e),
           l ++ concat (item_events m <$> take (S k) images))).
Proof.
  intros Hm Hk Hbad.
  destruct (batch_loop_stops g m images k image e l Hm Hk Hbad)
    as (e' & evs & Hstop).
  split; [|split].
  - exists e'. unfold recognize_batch, bind.
    rewrite (Hstop images [] eq_refl). reflexivity.
  - intros images' Heq. unfold recognize_batch, bind.
    rewrite (Hstop images' [] Heq), (Hstop images [] eq_refl). reflexivity.
  - intros texts Hbefore. unfold recognize_batch, bind.
    rewrite (batch_loop_raises g m images k image e texts) by assumption.
    reflexivity.
Qed.

(** C10. For a batch whose items each go through the single-item endpoint,
    the batch endpoint returns [{"results": results}] where [results] lists,
    in order, what [recognize_text] returns for each input; as computations,
    [recognize_batch] is [recognize_text] run over the inputs in order with
    the results collected. *)
Theorem recognize_batch_maps_recognize_text
    (g : globals) (images : list UploadFile) l :
  Forall (fun image => exists d, (recognize_text g image []).1 = Returns d)
    images ->
  exists results,
    (recognize_batch g images l).1 = Returns {[ "results" := results ]}
    /\ Forall2 (fun image d => (recognize_text g image []).1 = Returns d)
         images results
    /\ recognize_batch g images l =
         (rs <- map_M (recognize_text g) images ;;
          ret {[ "results" := rs ]}) l.
Proof.
  intros Hall.
  destruct (map_M_recognize_text_ok g images l Hall) as (results & l' & Hrun & Hres).
  exists results.
  assert (Heq : recognize_batch g images l =
            (rs <- map_M (recognize_text g) images ;;
             ret {[ "results" := rs ]}) l).
  { unfold recognize_batch, bind at 1. rewrite batch_loop_map_M.
    unfold bind, ret.
    destruct (map_M (recognize_text g) images l) as [[rs|e] l'']; reflexivity. }
  split; [|split; assumption].
  rewrite Heq. unfold bind. rewrite Hrun. reflexivity.
Qed.

End Endpoints.

(** * The process: import, then serve *)

Section Process.
Context `{Externals}.

Lemma runs_ready_ret {A} (m : Engine) (Q : A -> Prop) (a : A) :
  Q a -> runs_ready m Q (ret a).
Proof.
  intros HQ l. exists []. cbn. rewrite app_nil_r. auto.
Qed.

Lemma runs_ready_bind {A B} (m : Engine) (P : A -> Prop) (Q : B -> Prop)
    (c : M A) (k : A -> M B) :
  runs_ready m P c ->
  (forall a, P a -> runs_ready m Q (k a)) ->
  runs_ready m Q (x <- c ;; k x).
Proof.
  intros Hc Hk l. unfold bind.
  destruct (Hc l) as (evs & Hlog & Hevs & Hout).
  destruct (c l) as [[a|e] l']; cbn in *; subst l'.
  - destruct (Hk a Hout (l ++ evs)) as (evs' & Hlog' & Hevs' & Hout').
    exists (evs ++ evs'). rewrite Hlog', app_assoc.
    split; [reflexivity|]. split; [apply Forall_app; auto | assumption].
  - exists evs. auto.
Qed.

Lemma runs_ready_weaken {A} (m : Engine) (P Q : A -> Prop) (c : M A) :
  (forall a, P a -> Q a) -> runs_ready m P c -> runs_ready m Q c.
Proof.
  intros HPQ Hc l. destruct (Hc l) as (evs & Hlog & Hevs & Hout).
  exists evs. repeat split; try assumption.
  destruct (c l).1; auto.
Qed.

Lemma runs_ready_extcall {A} (m : Engine) (ev : event) (r : outcome LibExn A) :
  request_event m ev -> runs_ready m (fun _ => True) (extcall ev r).
Proof.
  intros Hev l. exists [ev]. unfold extcall. cbn.
  split; [reflexivity|]. split; [repeat constructor; assumption|].
  destruct r; [exact I | discriminate].
Qed.

Lemma runs_ready_recognize_text (g : globals) (m : Engine) image :
  g_mocr g = Some m -> runs_ready m (fun _ => True) (recognize_text g image).
Proof.
  intros Hm. unfold recognize_text.
  apply runs_ready_bind with (P := fun _ => True).
  { intros l. exists [EvRead image]. cbn. repeat constructor. }
  intros contents _. apply runs_ready_bind with (P := fun _ => True).
  { apply runs_ready_extcall. exact I. }
  intros img _. apply runs_ready_bind with (P := fun _ => True).
  { unfold call_mocr, load_mocr. rewrite Hm.
    apply runs_ready_bind with (P := fun m' => m' = m).
    - apply runs_ready_ret. reflexivity.
    - intros m' ->. apply runs_ready_extcall. reflexivity. }
  intros text _. apply runs_ready_ret. exact I.
Qed.

Lemma runs_ready_recognize_batch (g : globals) (m : Engine) images :
  g_mocr g = Some m -> runs_ready m (fun _ => True) (recognize_batch g images).
Proof.
  intros Hm. unfold recognize_batch.
  apply runs_ready_bind with (P := fun _ => True);
    [|intros; apply runs_ready_ret; exact I].
  generalize (@nil (gmap string string)).
  induction images as [|image images IH]; intros results l.
  - apply runs_ready_ret. exact I.
  - rewrite batch_loop_step.
    destruct (runs_ready_recognize_text g m image Hm l)
      as (evs & Hlog & Hevs & Hout).
    destruct (recognize_text g image l) as [[d|e] l']; cbn in *; subst l'.
    + destruct (IH (results ++ [d]) (l ++ evs)) as (evs' & Hlog' & Hevs' & Hout').
      exists (evs ++ evs'). rewrite Hlog', app_assoc.
      split; [reflexivity|]. split; [apply Forall_app; auto | assumption].
    + exists evs. auto.
Qed.

(** A request served with [mocr] bound is always answered, and never with
    a [NameError]. *)
Lemma runs_ready_handle (g : globals) (m : Engine) req :
  g_mocr g = Some m -> runs_ready m not_name_error (handle g req).
Proof.
  intros Hm. destruct req as [path files]. unfold handle.
  destruct (g_app g) as [routes|];
    [|apply runs_ready_ret; discriminate].
  destruct (find_route path routes) as [ep|];
    [|apply runs_ready_ret; discriminate].
  assert (Hep : runs_ready m not_name_error (call_endpoint g ep files)).
  { destruct ep; cbn.
    - destruct files as [|image [|]]; try (apply runs_ready_ret; discriminate).
      apply runs_ready_bind with (P := fun _ => True);
        [apply runs_ready_recognize_text; assumption|].
      intros; apply runs_ready_ret; discriminate.
    - apply runs_ready_bind with (P := fun _ => True);
        [apply runs_ready_recognize_batch; assumption|].
      intros; apply runs_ready_ret; discriminate. }
  intros l. destruct (Hep l) as (evs & Hlog & Hevs & Hout).
  exists evs. destruct (call_endpoint g ep files l) as [[r|e] l']; cbn in *.
  - auto.
  - repeat split; try assumption. intros name [= ->]. exact (Hout name eq_refl).
Qed.

Lemma runs_ready_serve (g : globals) (m : Engine) reqs :
  g_mocr g = Some m -> runs_ready m (Forall not_name_error) (serve g reqs).
Proof.
  intros Hm. induction reqs as [|req reqs IH]; cbn [serve].
  - apply runs_ready_ret. constructor.
  - apply runs_ready_bind with (P := not_name_error);
      [apply runs_ready_handle; assumption|].
    intros r Hr. apply runs_ready_bind with (P := Forall not_name_error);
      [exact IH|].
    intros rs Hrs. apply runs_ready_ret. constructor; assumption.
Qed.

(** Importing the module constructs the engine, once, and binds [app] with
    its two routes and [mocr]; when the constructor raises, the import
    raises and no globals exist. *)
Lemma import_module_run l :
  import_module l =
    (match MangaOcr_new with
     | Returns m =>
         Returns {| g_app := Some [("/ocr", recognize_text_ep);
                                   ("/ocr/batch", recognize_batch_ep)];
                    g_mocr := Some m |}
     | Raises e => Raises (LibError e)
     end, l ++ [EvEngineInit]).
Proof.
  unfold import_module, extcall, bind. destruct MangaOcr_new; reflexivity.
Qed.

(** C5. In every run of the process the engine is constructed exactly once,
    as the first call the process makes; every recognition of either
    endpoint comes after it and runs on the engine that this one
    construction returned; and no request finds [mocr] unbound. *)
Theorem engine_ready_before_recognition (reqs : list request) :
  (exists evs,
      (run_process reqs []).2 = (EvEngineInit :: evs)
      /\ (EvEngineInit ∉ evs)
      /\ forall m img, EvRecognize m img ∈ evs -> MangaOcr_new = Returns m)
  /\ forall resps, (run_process reqs []).1 = Returns resps ->
       Forall not_name_error resps.
Proof.
  unfold run_process, bind. rewrite import_module_run.
  destruct MangaOcr_new as [m|e] eqn:Hnew; cbn.
  - match goal with |- context [serve ?g reqs _] =>
      destruct (runs_ready_serve g m reqs eq_refl [EvEngineInit])
        as (evs & Hlog & Hevs & Hout)
    end.
    rewrite Forall_forall in Hevs. split.
    + exists evs. split; [exact Hlog|]. split.
      * intros Hin. exact (Hevs _ Hin).
      * intros m' img Hin. rewrite (Hevs _ Hin). reflexivity.
    + intros resps Hresps. rewrite Hresps in Hout. exact Hout.
  - split; [|discriminate].
    exists []. split; [reflexivity|]. split; [apply not_elem_of_nil|].
    intros m img Hin. apply elem_of_nil in Hin. contradiction.
Qed.

End Process.

(** * The handlers on concrete uploads *)

#[local] Existing Instance toy.

Lemma page_a_ok : item_ok tt page_a "A".
Proof. exists {| pixels := [x41] |}. split; reflexivity. Qed.

Lemma page_b_ok : item_ok tt page_b "B".
Proof. exists {| pixels := [x42] |}. split; reflexivity. Qed.

(** C1 fails on the code: in [page_a; garbage; page_b] only the second item
    fails to decode, and [recognize_batch] raises instead of returning three
    results with an error at position 1. *)
Lemma recognize_batch_corrupt_item_counterexample :
  ~ (item_ok tt page_a "A" ->
     Image_open (file garbage) = Raises UnidentifiedImageError ->
     item_ok tt page_b "B" ->
     exists results,
       (recognize_batch toy_ready [page_a; garbage; page_b] []).1
         = Returns {[ "results" := results ]}
       /\ length results = 3
       /\ forall i d, results !! i = Some d -> (is_error d <-> i = 1)).
Proof.
  intros Hclaim.
  destruct (Hclaim page_a_ok eq_refl page_b_ok) as (results & Hret & _).
  assert (Hrun : (recognize_batch toy_ready [page_a; garbage; page_b] []).1
                 = Raises (LibError UnidentifiedImageError)) by reflexivity.
  rewrite Hrun in Hret. discriminate.
Qed.

(** C2 fails on the code: for the batch [garbage; page_a] of two inputs
    [recognize_batch] raises and returns no results, not two. *)
Lemma recognize_batch_length_counterexample :
  ~ exists results,
      (recognize_batch toy_ready [garbage; page_a] []).1
        = Returns {[ "results" := results ]}
      /\ length results = 2.
Proof.
  intros (results & Hret & _).
  assert (Hrun : (recognize_batch toy_ready [garbage; page_a] []).1
                 = Raises (LibError UnidentifiedImageError)) by reflexivity.
  rewrite Hrun in Hret. discriminate.
Qed.

(** C3 fails on the code: a zero-length upload does not decode, and
    [recognize_text] raises the decoder's exception; it returns neither
    [{"error": "decode failed"}] nor any other dict. *)
Lemma recognize_text_zero_length_counterexample :
  Image_open (file empty_upload) = Raises UnidentifiedImageError
  /\ (recognize_text toy_ready empty_upload []).1
       = Raises (LibError UnidentifiedImageError)
  /\ (recognize_text toy_ready empty_upload []).1
       <> Returns {[ "error" := "decode failed" ]}
  /\ ~ exists d, (recognize_text toy_ready empty_upload []).1 = Returns d.
Proof.
  assert (Hrun : (recognize_text toy_ready empty_upload []).1
                 = Raises (LibError UnidentifiedImageError)) by reflexivity.
  repeat split; try reflexivity.
  - rewrite Hrun. discriminate.
  - intros [d Hd]. rewrite Hrun in Hd. discriminate.
Qed.

(** [recognize_text_outcome] on a zero-length upload and on a page. *)
Lemma recognize_text_outcome_witness :
  g_mocr toy_ready = Some tt
  /\ (recognize_text toy_ready empty_upload []).1
       = Raises (LibError UnidentifiedImageError)
  /\ (recognize_text toy_ready page_a []).1 = Returns {[ "text" := "A" ]}.
Proof.
  split; [reflexivity|]. split.
  - apply (recognize_text_outcome toy_ready tt empty_upload [] eq_refl).
    left. reflexivity.
  - apply (recognize_text_outcome toy_ready tt page_a [] eq_refl).
    exists {| pixels := [x41] |}. split; reflexivity.
Defined.

(** [recognize_batch_length_and_order] on two pages. *)
Lemma recognize_batch_length_and_order_witness :
  g_mocr toy_ready = Some tt
  /\ Forall2 (item_ok tt) [page_a; page_b] ["A"; "B"]
  /\ exists results,
       (recognize_batch toy_ready [page_a; page_b] []).1
         = Returns {[ "results" := results ]}
       /\ length results = 2
       /\ forall i image, [page_a; page_b] !! i = Some image ->
            exists text, item_ok tt image text
                         /\ results !! i = Some {[ "text" := text ]}.
Proof.
  assert (Hitems : Forall2 (item_ok tt) [page_a; page_b] ["A"; "B"]).
  { constructor; [|constructor; [|constructor]].
    - exists {| pixels := [x41] |}. split; reflexivity.
    - exists {| pixels := [x42] |}. split; reflexivity. }
  split; [reflexivity|]. split; [exact Hitems|].
  exact (recognize_batch_length_and_order
           toy_ready tt [page_a; page_b] ["A"; "B"] [] eq_refl Hitems).
Defined.

(** [recognize_batch_decode_failure] on a batch with junk in the middle,
    which the open rejects, and on one with a page in the middle that opens
    and fails in the engine. *)
Lemma recognize_batch_decode_failure_witness :
  g_mocr toy_ready = Some tt
  /\ [page_a; garbage; page_b] !! 1 = Some garbage
  /\ item_raises tt garbage UnidentifiedImageError
  /\ [page_a; blank_page; page_b] !! 1 = Some blank_page
  /\ item_raises tt blank_page ValueError
  /\ recognize_batch toy_ready [page_a; garbage; page_b] []
       = (Raises (LibError UnidentifiedImageError),
          item_events tt page_a ++ [EvRead garbage; EvOpen (file garbage)])
  /\ recognize_batch toy_ready [page_a; blank_page; page_b] []
       = (Raises (LibError ValueError),
          item_events tt page_a
            ++ [EvRead blank_page; EvOpen (file blank_page);
                EvRecognize tt {| pixels := [] |}]).
Proof.
  assert (Hjunk : item_raises tt garbage UnidentifiedImageError)
    by (left; reflexivity).
  assert (Hblank : item_raises tt blank_page ValueError)
    by (right; exists {| pixels := [] |}; split; reflexivity).
  assert (Hrest : forall bad i image, i <> 1 ->
            [page_a; bad; page_b] !! i = Some image ->
            exists text, item_ok tt image text).
  { intros bad [|[|[|i]]] image Hne Hi; cbn in Hi; try discriminate.
    - injection Hi as <-. exists "A", {| pixels := [x41] |}. split; reflexivity.
    - contradiction.
    - injection Hi as <-. exists "B", {| pixels := [x42] |}. split; reflexivity. }
  split; [reflexivity|]. split; [reflexivity|]. split; [exact Hjunk|].
  split; [reflexivity|]. split; [exact Hblank|]. split.
  - destruct (recognize_batch_decode_failure
                toy_ready tt [page_a; garbage; page_b] 1 garbage
                UnidentifiedImageError [] eq_refl eq_refl Hjunk (Hrest garbage))
      as [Hout Hlog].
    apply injective_projections; [exact Hout | exact Hlog].
  - destruct (recognize_batch_decode_failure
                toy_ready tt [page_a; blank_page; page_b] 1 blank_page
                ValueError [] eq_refl eq_refl Hblank (Hrest blank_page))
      as [Hout Hlog].
    apply injective_projections; [exact Hout | exact Hlog].
Defined.

(** [recognize_batch_all_or_nothing] on a batch whose second page the
    engine rejects. *)
Lemma recognize_batch_all_or_nothing_witness :
  g_mocr toy_ready = Some tt
  /\ [page_a; blank_page; page_b] !! 1 = Some blank_page
  /\ item_raises tt blank_page ValueError
  /\ (exists e', (recognize_batch toy_ready [page_a; blank_page; page_b] []).1
                 = Raises e')
  /\ recognize_batch toy_ready [page_a; blank_page] []
       = recognize_batch toy_ready [page_a; blank_page; page_b] []
  /\ recognize_batch toy_ready [page_a; blank_page; page_b] []
       = (Raises (LibError ValueError),
          concat (item_events tt <$> [page_a; blank_page])).
Proof.
  assert (Hbad : item_raises tt blank_page ValueError).
  { right. exists {| pixels := [] |}. split; reflexivity. }
  split; [reflexivity|]. split; [reflexivity|]. split; [exact Hbad|].
  destruct (recognize_batch_all_or_nothing
              toy_ready tt [page_a; blank_page; page_b] 1 blank_page
              ValueError [] eq_refl eq_refl Hbad)
    as (Hraises & Hrest & Hrun).
  split; [exact Hraises|]. split.
  - apply Hrest. reflexivity.
  - apply (Hrun ["A"]). constructor; [|constructor].
    exists {| pixels := [x41] |}. split; reflexivity.
Defined.

(** [recognize_batch_maps_recognize_text] on two pages. *)
Lemma recognize_batch_maps_recognize_text_witness :
  Forall (fun image => exists d, (recognize_text toy_ready image []).1 = Returns d)
    [page_a; page_b]
  /\ exists results,
       (recognize_batch toy_ready [page_a; page_b] []).1
         = Returns {[ "results" := results ]}
       /\ Forall2 (fun image d => (recognize_text toy_ready image []).1 = Returns d)
            [page_a; page_b] results
       /\ recognize_batch toy_ready [page_a; page_b] []
          = (rs <- map_M (recognize_text toy_ready) [page_a; page_b] ;;
             ret {[ "results" := rs ]}) [].
Proof.
  assert (Hall : Forall (fun image =>
                   exists d, (recognize_text toy_ready image []).1 = Returns d)
                   [page_a; page_b]).
  { constructor; [|constructor; [|constructor]].
    - exists {[ "text" := "A" ]}. reflexivity.
    - exists {[ "text" := "B" ]}. reflexivity. }
  split; [exact Hall|].
  exact (recognize_batch_maps_recognize_text toy_ready [page_a; page_b] [] Hall).
Defined.

(** * More about batches *)

Section Batches.
Context `{Externals}.

(** The loop, like the single-item handler, only appends to the log. *)
Lemma batch_loop_frame (g : globals) images results l :
  batch_loop g images results l =
    ((batch_loop g images results []).1,
     l ++ (batch_loop g images results []).2).
Proof.
  revert results l. induction images as [|x images IH]; intros results l.
  - cbn. unfold ret. cbn. rewrite app_nil_r. reflexivity.
  - rewrite !batch_loop_step, (recognize_text_frame g x l).
    destruct (recognize_text g x []) as [[d|e] evx]; cbn.
    + rewrite (IH (results ++ [d]) (l ++ evx)), (IH (results ++ [d]) evx).
      cbn. rewrite app_assoc. reflexivity.
    + reflexivity.
Qed.

Lemma recognize_batch_frame (g : globals) images l :
  recognize_batch g images l =
    ((recognize_batch g images []).1, l ++ (recognize_batch g images []).2).
Proof.
  unfold recognize_batch, bind. rewrite batch_loop_frame.
  destruct (batch_loop g images [] []) as [[rs|e] evs]; reflexivity.
Qed.

(** A loop that returns went through every item. *)
Lemma batch_loop_returns (g : globals) (m : Engine) images results rs l :
  g_mocr g = Some m ->
  (batch_loop g images results l).1 = Returns rs ->
  exists texts, Forall2 (item_ok m) images texts.
Proof.
  intros Hm. revert results l.
  induction images as [|x images IH]; intros results l Hret.
  - exists []. constructor.
  - rewrite batch_loop_step, (recognize_text_run g m x l Hm) in Hret.
    destruct (Image_open (file x)) as [img|e] eqn:Hopen; [|discriminate].
    destruct (MangaOcr_call m img) as [text|e] eqn:Hcall; [|discriminate].
    apply IH in Hret as [texts Htexts].
    exists (text :: texts). constructor; [exists img; auto | assumption].
Qed.

(** The loop raises [e] exactly when some item raises [e] on its own after
    items that all return. *)
Lemma batch_loop_raises_iff (g : globals) images results e l :
  (batch_loop g images results l).1 = Raises e <->
  exists k image,
    images !! k = Some image
    /\ (recognize_text g image []).1 = Raises e
    /\ Forall (fun im => exists d, (recognize_text g im []).1 = Returns d)
         (take k images).
Proof.
  revert results l. induction images as [|x images IH]; intros results l.
  - cbn. split; [discriminate|]. intros (k & image & Hk & _). discriminate.
  - rewrite batch_loop_step, recognize_text_frame.
    destruct (recognize_text g x []) as [[d|e0] evx] eqn:Hx; cbn [fst snd].
    + rewrite IH. split.
      * intros (k & image & Hk & Hraise & Hbefore).
        exists (S k), image. split; [exact Hk|]. split; [assumption|].
        cbn [take]. constructor; [exists d; rewrite Hx; reflexivity | assumption].
      * intros (k & image & Hk & Hraise & Hbefore).
        destruct k as [|k]; cbn in Hk.
        -- injection Hk as ->. rewrite Hx in Hraise. discriminate.
        -- exists k, image. cbn [take] in Hbefore.
           inversion Hbefore; subst. auto.
    + split.
      * intros [= ->]. exists 0, x. split; [reflexivity|].
        split; [rewrite Hx; reflexivity | constructor].
      * intros (k & image & Hk & Hraise & Hbefore).
        destruct k as [|k]; cbn in Hk.
        -- injection Hk as ->. rewrite Hx in Hraise.
           injection Hraise as ->. reflexivity.
        -- cbn [take] in Hbefore.
           inversion Hbefore as [|? ? [d Hd] _]; subst.
           rewrite Hx in Hd. discriminate.
Qed.

(** X1. Whenever [recognize_batch] returns, every item was decoded and
    recognized, and the answer is [{"results": [...]}] with one
    [{"text": ...}] per input, in order, holding the text the engine gave
    for that input: a returned list is never short and never holds anything
    but text dicts. *)
Theorem recognize_batch_returns_texts
    (g : globals) (m : Engine) (images : list UploadFile) resp l :
  g_mocr g = Some m ->
  (recognize_batch g images l).1 = Returns resp ->
  exists texts,
    Forall2 (item_ok m) images texts
    /\ resp = {[ "results" := (fun text => {[ "text" := text ]}) <$> texts ]}.
Proof.
  intros Hm Hret. unfold recognize_batch, bind in Hret.
  destruct (batch_loop g images [] l) as [[rs|e] l'] eqn:Hloop; [|discriminate].
  unfold ret in Hret. cbn [fst] in Hret. injection Hret as <-.
  destruct (batch_loop_returns g m images [] rs l Hm) as [texts Htexts];
    [rewrite Hloop; reflexivity|].
  exists texts. split; [assumption|].
  rewrite (batch_loop_ok g m images texts [] l Hm Htexts) in Hloop.
  injection Hloop as <- _. reflexivity.
Qed.

(** X2. [recognize_batch] raises [e] exactly when there is a first item
    that raises [e] when handled on its own by [recognize_text], every item
    before it returning; the exception of the batch is that item's. *)
Theorem recognize_batch_raises_iff
    (g : globals) (images : list UploadFile) e l :
  (recognize_batch g images l).1 = Raises e <->
  exists k image,
    images !! k = Some image
    /\ (recognize_text g image []).1 = Raises e
    /\ Forall (fun im => exists d, (recognize_text g im []).1 = Returns d)
         (take k images).
Proof.
  rewrite <- (batch_loop_raises_iff g images [] e l).
  unfold recognize_batch, bind.
  destruct (batch_loop g images [] l) as [[rs|e'] l']; cbn.
  - split; discriminate.
  - split; intros [= ->]; reflexivity.
Qed.

(** The calls of the loop are those of a prefix of the items, item by
    item; the prefix is the whole batch when the loop returns. *)
Lemma batch_loop_calls (g : globals) (m : Engine) images results l :
  g_mocr g = Some m ->
  exists j,
    j <= length images
    /\ (batch_loop g images results l).2 =
         l ++ concat (item_events m <$> take j images)
    /\ forall rs, (batch_loop g images results l).1 = Returns rs ->
         j = length images.
Proof.
  intros Hm. revert results l.
  induction images as [|x images IH]; intros results l.
  - exists 0. cbn. rewrite app_nil_r. auto.
  - rewrite batch_loop_step.
    pose proof (recognize_text_run g m x l Hm) as Hrun.
    destruct (recognize_text g x l) as [[d|e] l'].
    + injection Hrun as _ ->.
      destruct (IH (results ++ [d]) (l ++ item_events m x))
        as (j & Hj & Hlog & Hall).
      exists (S j). split; [cbn; lia|]. split.
      * rewrite Hlog. cbn [take fmap list_fmap concat].
        rewrite <- app_assoc. reflexivity.
      * intros rs Hrs. cbn. f_equal. exact (Hall rs Hrs).
    + injection Hrun as _ ->.
      exists 1. split; [cbn; lia|]. split; [|discriminate].
      cbn. rewrite app_nil_r. reflexivity.
Qed.

(** The calls of one item: read, open and at most one recognition, which
    is on the image opened from that item. *)
Lemma item_events_shape (m : Engine) (image : UploadFile) :
  (item_events m image = [EvRead image; EvOpen (file image)]
   \/ exists img,
        Image_open (file image) = Returns img
        /\ item_events m image =
             [EvRead image; EvOpen (file image); EvRecognize m img])
  /\ recognitions (item_events m image) <= 1.
Proof.
  unfold item_events.
  destruct (Image_open (file image)) as [img|e]; cbn.
  - split; [right; exists img; split; reflexivity | lia].
  - split; [left; reflexivity | lia].
Qed.

Lemma item_events_ok (m : Engine) (image : UploadFile) text :
  item_ok m image text -> recognitions (item_events m image) = 1.
Proof.
  intros (img & Hopen & _). unfold item_events. rewrite Hopen. reflexivity.
Qed.

(** A loop started with [results] returns them followed by what it would
    return when started with none. *)
Lemma batch_loop_results (g : globals) images results l :
  (batch_loop g images results l).1 =
    match (batch_loop g images [] []).1 with
    | Returns rs => Returns (results ++ rs)
    | Raises e => Raises e
    end.
Proof.
  rewrite batch_loop_frame. cbn [fst].
  rewrite (batch_loop_map_M g images results), (batch_loop_map_M g images []).
  unfold bind, ret.
  destruct (map_M (recognize_text g) images []) as [[rs|e] l']; reflexivity.
Qed.

Lemma batch_loop_app (g : globals) xs ys results l :
  batch_loop g (xs ++ ys) results l =
    (rs <- batch_loop g xs results ;; batch_loop g ys rs) l.
Proof.
  revert results l. induction xs as [|x xs IH]; intros results l.
  - reflexivity.
  - unfold bind. cbn [app]. rewrite !batch_loop_step.
    destruct (recognize_text g x l) as [[d|e] l']; [|reflexivity].
    rewrite IH. reflexivity.
Qed.

Lemma recognize_batch_outcome (g : globals) images l :
  (recognize_batch g images l).1 =
    match (batch_loop g images [] []).1 with
    | Returns rs => Returns {[ "results" := rs ]}
    | Raises e => Raises e
    end.
Proof.
  unfold recognize_batch, bind. rewrite batch_loop_frame.
  destruct (batch_loop g images [] []) as [[rs|e] evs]; reflexivity.
Qed.

Lemma Returns_inj {E A} (a b : A) : @Returns E A a = Returns b -> a = b.
Proof. intros Heq. injection Heq as ->. reflexivity. Qed.

Lemma recognize_text_bytes (g : globals) (a b : UploadFile) :
  file a = file b ->
  (recognize_text g a []).1 = (recognize_text g b []).1.
Proof.
  intros Heq.
  unfold recognize_text, call_mocr, load_mocr, open_image, UploadFile_read,
    extcall, bind, ret, raise.
  rewrite Heq.
  destruct (Image_open (file b)) as [img|e]; cbn; [|reflexivity].
  destruct (g_mocr g) as [m|]; cbn; [|reflexivity].
  destruct (MangaOcr_call m img); reflexivity.
Qed.

(** X3. The calls [recognize_batch] makes are those of the first [j] items,
    item by item in input order (read, open, recognize, then the next
    item), each item once; when it returns, [j] is the size of the batch.
    No upload is read ahead of its turn and nothing is tried twice. *)
Theorem recognize_batch_calls_in_order
    (g : globals) (m : Engine) (images : list UploadFile) l :
  g_mocr g = Some m ->
  exists j,
    j <= length images
    /\ (recognize_batch g images l).2 =
         l ++ concat (item_events m <$> take j images)
    /\ forall resp, (recognize_batch g images l).1 = Returns resp ->
         j = length images.
Proof.
  intros Hm.
  destruct (batch_loop_calls g m images [] l Hm) as (j & Hj & Hlog & Hall).
  exists j. split; [exact Hj|].
  unfold recognize_batch, bind.
  destruct (batch_loop g images [] l) as [[rs|e] l']; cbn in *.
  - split; [exact Hlog|]. intros _ _. exact (Hall rs eq_refl).
  - split; [exact Hlog | discriminate].
Qed.

(** X4. The calls [recognize_batch] makes split into one segment per
    processed upload, in input order: the segment at position [i] is the
    read and the open of upload [i] followed by at most one call of the
    engine, on the image opened from that upload.  So the engine is called
    at most once per upload and never retried; when the batch returns there
    is a segment for every upload and each holds its one recognition, so no
    upload was skipped. *)
Theorem recognize_batch_engine_calls
    (g : globals) (m : Engine) (images : list UploadFile) l :
  g_mocr g = Some m ->
  exists segs : list (list event),
    (recognize_batch g images l).2 = l ++ concat segs
    /\ length segs <= length images
    /\ (forall i seg, segs !! i = Some seg ->
          exists image,
            images !! i = Some image
            /\ (seg = [EvRead image; EvOpen (file image)]
                \/ exists img,
                     Image_open (file image) = Returns img
                     /\ seg = [EvRead image; EvOpen (file image);
                               EvRecognize m img])
            /\ recognitions seg <= 1)
    /\ (forall resp, (recognize_batch g images l).1 = Returns resp ->
          length segs = length images
          /\ forall i seg, segs !! i = Some seg -> recognitions seg = 1).
Proof.
  intros Hm.
  destruct (batch_loop_calls g m images [] l Hm) as (j & Hj & Hlog & Hall).
  exists (item_events m <$> take j images).
  assert (Hlen : length (item_events m <$> take j images) = j)
    by (rewrite length_fmap, length_take; lia).
  assert (Hseg : forall i seg,
            (item_events m <$> take j images) !! i = Some seg ->
            exists image, images !! i = Some image /\ seg = item_events m image).
  { intros i seg Hi. apply list_lookup_fmap_Some in Hi as (image & -> & Hi).
    apply lookup_take_Some in Hi as [Hi _]. exists image. auto. }
  unfold recognize_batch, bind.
  destruct (batch_loop g images [] l) as [[rs|e] l'] eqn:Hloop; cbn in *.
  - split; [exact Hlog|]. split; [lia|]. split.
    + intros i seg Hi. destruct (Hseg i seg Hi) as (image & Himage & ->).
      exists image. split; [exact Himage|]. apply item_events_shape.
    + intros _ _. split; [rewrite Hlen; exact (Hall rs eq_refl)|].
      intros i seg Hi. destruct (Hseg i seg Hi) as (image & Himage & ->).
      destruct (batch_loop_returns g m images [] rs l Hm) as [texts Htexts];
        [rewrite Hloop; reflexivity|].
      destruct (Forall2_lookup_l _ _ _ _ _ Htexts Himage) as (text & _ & Hok).
      exact (item_events_ok m image text Hok).
  - split; [exact Hlog|]. split; [lia|]. split; [|discriminate].
    intros i seg Hi. destruct (Hseg i seg Hi) as (image & Himage & ->).
    exists image. split; [exact Himage|]. apply item_events_shape.
Qed.

(** X5. A batch that is two batches one after the other: when both return,
    it returns their results one after the other; when the first raises, it
    raises the same and makes the same calls, none for the second; when the
    first returns and the second raises, it raises what the second does. *)
Theorem recognize_batch_app (g : globals) (xs ys : list UploadFile) l :
  (forall rs1 rs2,
     (recognize_batch g xs []).1 = Returns {[ "results" := rs1 ]} ->
     (recognize_batch g ys []).1 = Returns {[ "results" := rs2 ]} ->
     (recognize_batch g (xs ++ ys) l).1 = Returns {[ "results" := rs1 ++ rs2 ]})
  /\ (forall e,
        (recognize_batch g xs []).1 = Raises e ->
        recognize_batch g (xs ++ ys) l = recognize_batch g xs l)
  /\ (forall rs1 e,
        (recognize_batch g xs []).1 = Returns {[ "results" := rs1 ]} ->
        (recognize_batch g ys []).1 = Raises e ->
        (recognize_batch g (xs ++ ys) l).1 = Raises e).
Proof.
  assert (Happ : (batch_loop g (xs ++ ys) [] []).1 =
            match (batch_loop g xs [] []).1 with
            | Returns rs1 =>
                match (batch_loop g ys [] []).1 with
                | Returns rs2 => Returns (rs1 ++ rs2)
                | Raises e => Raises e
                end
            | Raises e => Raises e
            end).
  { rewrite batch_loop_app. unfold bind.
    destruct (batch_loop g xs [] []) as [[rs1|e] l1]; cbn [fst]; [|reflexivity].
    apply batch_loop_results. }
  split; [|split].
  - intros rs1 rs2. rewrite !recognize_batch_outcome, Happ.
    destruct (batch_loop g xs [] []).1 as [rs1'|]; [|discriminate].
    destruct (batch_loop g ys [] []).1 as [rs2'|]; [|discriminate].
    intros H1 H2. apply Returns_inj, (inj (singletonM "results")) in H1, H2.
    subst. reflexivity.
  - intros e. rewrite recognize_batch_outcome. intros Hxs.
    unfold recognize_batch, bind. rewrite batch_loop_app.
    unfold bind. rewrite (batch_loop_frame g xs [] l).
    destruct (batch_loop g xs [] []).1; [discriminate | reflexivity].
  - intros rs1 e. rewrite !recognize_batch_outcome, Happ.
    destruct (batch_loop g xs [] []).1 as [rs1'|]; [|discriminate].
    destruct (batch_loop g ys [] []).1 as [|e']; [discriminate|].
    intros _ [= ->]. reflexivity.
Qed.

(** X6. The handlers use the bytes of an upload and nothing else: two
    batches whose uploads carry the same bytes, position by position, have
    the same outcome, whatever file names and content types are declared. *)
Theorem recognize_batch_only_bytes (g : globals) (xs ys : list UploadFile) l :
  Forall2 (fun a b => file a = file b) xs ys ->
  (recognize_batch g xs l).1 = (recognize_batch g ys l).1.
Proof.
  intros Hsame. rewrite !recognize_batch_outcome.
  enough (Hloop : forall results,
            (batch_loop g xs results []).1 = (batch_loop g ys results []).1)
    by (rewrite Hloop; reflexivity).
  induction Hsame as [|a b xs ys Hab _ IH]; intros results; [reflexivity|].
  rewrite !batch_loop_step.
  pose proof (recognize_text_bytes g a b Hab) as Hitem.
  destruct (recognize_text g a []) as [[d|e] la],
           (recognize_text g b []) as [[d'|e'] lb];
    cbn in Hitem; try discriminate; injection Hitem as <-.
  - rewrite (batch_loop_frame g xs _ la), (batch_loop_frame g ys _ lb).
    cbn [fst]. apply IH.
  - reflexivity.
Qed.

End Batches.

(** * More runs on concrete uploads *)

(** [recognize_batch_returns_texts] on two pages. *)
Lemma recognize_batch_returns_texts_witness :
  g_mocr toy_ready = Some tt
  /\ (recognize_batch toy_ready [page_a; page_b] []).1
       = Returns {[ "results" := [ {[ "text" := "A" ]}; {[ "text" := "B" ]} ] ]}
  /\ exists texts,
       Forall2 (item_ok tt) [page_a; page_b] texts
       /\ ({[ "results" := [ {[ "text" := "A" ]}; {[ "text" := "B" ]} ] ]}
             : gmap string (list (gmap string string)))
          = {[ "results" := (fun text => {[ "text" := text ]}) <$> texts ]}.
Proof.
  split; [reflexivity|]. split; [reflexivity|].
  exact (recognize_batch_returns_texts toy_ready tt [page_a; page_b]
           {[ "results" := [ {[ "text" := "A" ]}; {[ "text" := "B" ]} ] ]} []
           eq_refl eq_refl).
Defined.

(** [recognize_batch_calls_in_order] on a batch with junk in the middle. *)
Lemma recognize_batch_calls_in_order_witness :
  g_mocr toy_ready = Some tt
  /\ exists j,
       j <= 3
       /\ (recognize_batch toy_ready [page_a; garbage; page_b] []).2
          = concat (item_events tt <$> take j [page_a; garbage; page_b])
       /\ forall resp,
            (recognize_batch toy_ready [page_a; garbage; page_b] []).1
              = Returns resp -> j = 3.
Proof.
  split; [reflexivity|].
  exact (recognize_batch_calls_in_order toy_ready tt
           [page_a; garbage; page_b] [] eq_refl).
Defined.

(** [recognize_batch_engine_calls] on a batch whose second page the engine
    rejects. *)
Lemma recognize_batch_engine_calls_witness :
  g_mocr toy_ready = Some tt
  /\ exists segs : list (list event),
       (recognize_batch toy_ready [page_a; blank_page; page_b] []).2
         = concat segs
       /\ length segs <= 3
       /\ (forall i seg, segs !! i = Some seg ->
             exists image,
               [page_a; blank_page; page_b] !! i = Some image
               /\ (seg = [EvRead image; EvOpen (file image)]
                   \/ exists img,
                        Image_open (file image) = Returns img
                        /\ seg = [EvRead image; EvOpen (file image);
                                  EvRecognize tt img])
               /\ recognitions seg <= 1)
       /\ (forall resp,
             (recognize_batch toy_ready [page_a; blank_page; page_b] []).1
               = Returns resp ->
             length segs = 3
             /\ forall i seg, segs !! i = Some seg -> recognitions seg = 1).
Proof.
  split; [reflexivity|].
  exact (recognize_batch_engine_calls toy_ready tt
           [page_a; blank_page; page_b] [] eq_refl).
Defined.

(** [recognize_batch_only_bytes] on two pages uploaded under other names. *)
Lemma recognize_batch_only_bytes_witness :
  Forall2 (fun a b => file a = file b) [page_a; page_b] [notes_a; notes_b]
  /\ (recognize_batch toy_ready [page_a; page_b] []).1
     = (recognize_batch toy_ready [notes_a; notes_b] []).1.
Proof.
  assert (Hsame : Forall2 (fun a b => file a = file b)
                    [page_a; page_b] [notes_a; notes_b]).
  { constructor; [reflexivity|]. constructor; [reflexivity|]. constructor. }
  split; [exact Hsame|].
  exact (recognize_batch_only_bytes toy_ready [page_a; page_b]
           [notes_a; notes_b] [] Hsame).
Defined.
